(** * ResumeRushFirebase: the WebRTC signaling relay of functions/index.js

    A shallow embedding of the room state machine and of the notification
    mailboxes, over a typed model of the `rooms` collection of the Firebase
    Realtime Database.

    Conventions of the embedding.
    - The keyed tree under `rooms` is a finite map from room id to a record
      with the children the program writes: `host`, `players`, `createdAt`,
      `offers`, `answers`, `ice_candidates` and `notifications`.  The program
      creates a room with `host`, `players` and `createdAt` in one write and
      never removes one of the three on its own, so the record has them as
      plain fields.  An absent child object is the empty map or set, as in the
      database, where an empty object does not exist.
    - Room and player ids are strings that are valid database keys.
    - `players` is `{id: true}` in the database: a set of ids.  `Object.keys`
      and `for ... in` enumerate it through [elements]; only the facts that
      the enumeration has every member once are used.
    - A mailbox `notifications/<player>` is a list: `push` generates keys that
      increase with time, so the children in key order are the notifications
      in the order they were pushed, and `push` appends at the end.
    - Timestamps are integers (milliseconds), far below 2^53.
    - Each function runs alone against the store (no interleaving of two
      requests); every store call succeeds. *)

From stdpp Require Import gmap strings list fin_maps fin_sets.
From Stdlib Require Import ZArith.

Open Scope string_scope.
Open Scope list_scope.
Open Scope stdpp_scope.

(** ** Constants *)

Definition MAX_PLAYERS : nat := 8.
Definition ROOM_TIMEOUT : Z := 24 * 60 * 60 * 1000.  (* 24 hours in milliseconds *)

(** ** Data model *)

(** Negotiation payloads are JSON values the relay never inspects, except
    that `ice_candidates` calls `forEach` on its payload: a value is an array
    or something else, kept as its text.  A payload is a value (not null or
    undefined), and is kept in the store as it was written. *)
#[warnings="-register-all"]
Inductive json : Type :=
  | JAtom (text : string)
  | JArray (items : list json).

(** The notification objects the program pushes, by their `type` field. *)
Inductive notification : Type :=
  | new_player (playerId : string)
  | player_left (playerId : string)
  | offer (from : string) (offer : json)
  | answer (from : string) (answer : json)
  | new_ice_candidates (from : string) (candidates : json).

(** `rooms/<roomId>`.  The key of an ICE candidate,
    `candidate_<Date.now()>_<index>`, is kept as the pair it is printed
    from. *)
Record room : Type := Room {
  host : string;
  players : gset string;
  createdAt : Z;
  offers : gmap string json;
  answers : gmap string json;
  ice_candidates : gmap string (gmap (Z * nat) json);
  notifications : gmap string (list notification)
}.

(** The `rooms` collection. *)
Abbreviation store := (gmap string room).

Definition with_host (h : string) (r : room) : room :=
  Room h (players r) (createdAt r) (offers r) (answers r)
       (ice_candidates r) (notifications r).

Definition with_players (f : gset string → gset string) (r : room) : room :=
  Room (host r) (f (players r)) (createdAt r) (offers r) (answers r)
       (ice_candidates r) (notifications r).

Definition with_offers (f : gmap string json → gmap string json) (r : room) : room :=
  Room (host r) (players r) (createdAt r) (f (offers r)) (answers r)
       (ice_candidates r) (notifications r).

Definition with_answers (f : gmap string json → gmap string json) (r : room) : room :=
  Room (host r) (players r) (createdAt r) (offers r) (f (answers r))
       (ice_candidates r) (notifications r).

Definition with_ice_candidates
    (f : gmap string (gmap (Z * nat) json) → gmap string (gmap (Z * nat) json))
    (r : room) : room :=
  Room (host r) (players r) (createdAt r) (offers r) (answers r)
       (f (ice_candidates r)) (notifications r).

Definition with_notifications
    (f : gmap string (list notification) → gmap string (list notification))
    (r : room) : room :=
  Room (host r) (players r) (createdAt r) (offers r) (answers r)
       (ice_candidates r) (f (notifications r)).

(** The pending notifications of a player: the children of
    `rooms/<roomId>/notifications/<playerId>` in key order. *)
Definition mailbox (s : store) (roomId playerId : string) : list notification :=
  default [] (r ← s !! roomId; notifications r !! playerId).

(** ** Errors and results *)

(** `throw new Error(message)`. *)
Inductive error : Type := Error (message : string).

Definition NotFound : error := Error "Room not found".
Definition RoomFull : error := Error "Room is full".
Definition InvalidDirection : error := Error "Invalid offer direction".
Definition InvalidAction (action : string) : error := Error ("Invalid action: " +:+ action).

(** The object an operation returns; a field the object does not have is
    [None]. *)
Record result : Type := Result {
  res_message : option string;
  res_roomId : option string;
  res_hostId : option string;
  res_notifications : option (list notification)
}.

(** ** The monad of an async function over the store

    An operation reads and writes the store and either returns or throws;
    what it wrote before it throws stays written. *)

Inductive outcome (A : Type) : Type :=
  | Returned (a : A)
  | Thrown (e : error).
Arguments Returned {A} a.
Arguments Thrown {A} e.

Definition M (A : Type) : Type := store → outcome A * store.

Definition M_ret {A} (a : A) : M A := λ s, (Returned a, s).

Definition M_bind {A B} (f : A → M B) (m : M A) : M B :=
  λ s, match m s with
       | (Returned a, s') => f a s'
       | (Thrown e, s') => (Thrown e, s')
       end.

Global Instance M_mret : MRet M := @M_ret.
Global Instance M_mbind : MBind M := @M_bind.

Definition throw {A} (e : error) : M A := λ s, (Thrown e, s).

(** `for (x of l) await f(x)` *)
Fixpoint for_each {A} (l : list A) (f : A → M unit) : M unit :=
  match l with
  | [] => mret tt
  | x :: l' => f x ;; for_each l' f
  end.

(** ** The store adapter: the calls the program makes on `db.ref(...)` *)

(** `db.ref('rooms/<roomId>').once('value')`, as `snapshot.val()`: [None]
    is null, and `snapshot.exists()` is [is_Some]. *)
Definition once_room (roomId : string) : M (option room) :=
  λ s, (Returned (s !! roomId), s).

(** `roomRef.set(room)` *)
Definition set_room (roomId : string) (r : room) : M unit :=
  λ s, (Returned tt, <[roomId := r]> s).

(** `roomRef.remove()` *)
Definition remove_room (roomId : string) : M unit :=
  λ s, (Returned tt, delete roomId s).

(** `roomRef.child('players').update({[playerId]: true})` *)
Definition update_players (roomId playerId : string) : M unit :=
  λ s, (Returned tt, alter (with_players (λ ps, {[playerId]} ∪ ps)) roomId s).

(** `roomRef.child('players').child(playerId).remove()` *)
Definition remove_player (roomId playerId : string) : M unit :=
  λ s, (Returned tt, alter (with_players (λ ps, ps ∖ {[playerId]})) roomId s).

(** `roomRef.child('players').once('value')`, as `snapshot.val()`: null when
    no player is left, since an empty object does not exist. *)
Definition once_players (roomId : string) : M (option (gset string)) :=
  λ s, (Returned (r ← s !! roomId;
                  if decide (players r = ∅) then None else Some (players r)), s).

(** `roomRef.update({ host: newHost })` *)
Definition update_host (roomId newHost : string) : M unit :=
  λ s, (Returned tt, alter (with_host newHost) roomId s).

(** `roomRef.child('offers/<senderId>').set(offer)` *)
Definition set_offer (roomId senderId : string) (o : json) : M unit :=
  λ s, (Returned tt, alter (with_offers <[senderId := o]>) roomId s).

(** `roomRef.child('answers/<senderId>').set(answer)` *)
Definition set_answer (roomId senderId : string) (a : json) : M unit :=
  λ s, (Returned tt, alter (with_answers <[senderId := a]>) roomId s).

(** `roomRef.update(updates)` with the paths
    `ice_candidates/<senderId>/candidate_<time>_<index>`: each path is set,
    the other children stay. *)
Definition update_ice_candidates (roomId senderId : string)
    (updates : list (Z * nat * json)) : M unit :=
  λ s, (Returned tt,
        alter (with_ice_candidates (λ ice,
                 foldl (λ ice' '(key, candidate),
                          <[senderId := <[key := candidate]> (default ∅ (ice' !! senderId))]> ice')
                       ice updates)) roomId s).

(** `db.ref('rooms/<roomId>/notifications/<playerId>').once('value')`, as
    `snapshot.val()`: null when nothing is pending. *)
Definition once_notifications (roomId playerId : string)
    : M (option (list notification)) :=
  λ s, (Returned (r ← s !! roomId;
                  ns ← notifications r !! playerId;
                  if ns is [] then None else Some ns), s).

(** `notificationsRef.remove()` *)
Definition remove_notifications (roomId playerId : string) : M unit :=
  λ s, (Returned tt, alter (with_notifications (delete playerId)) roomId s).

(** `db.ref('rooms').once('value')` *)
Definition once_rooms : M store := λ s, (Returned s, s).

(** ** The program: functions/index.js *)

(** `addNotification(roomId, playerId, notification)`: `push` on the
    mailbox.  Every call site has just read the room as present. *)
Definition addNotification (roomId playerId : string) (n : notification) : M unit :=
  λ s, (Returned tt,
        alter (with_notifications (λ boxes,
                 <[playerId := default [] (boxes !! playerId) ++ [n]]> boxes)) roomId s).

(** `createRoom(roomId, hostId)`; [now] is the value the server puts for
    `ServerValue.TIMESTAMP`. *)
Definition createRoom (now : Z) (roomId hostId : string) : M result :=
  roomSnapshot ← once_room roomId;
  if roomSnapshot is Some _ then throw (Error "Room already exists") else
  set_room roomId (Room hostId {[hostId]} now ∅ ∅ ∅ ∅);;
  mret (Result (Some "Room created") (Some roomId) None None).

(** `joinRoom(roomId, playerId)` *)
Definition joinRoom (roomId playerId : string) : M result :=
  roomSnapshot ← once_room roomId;
  match roomSnapshot with
  | None => throw (Error "Room not found")
  | Some roomData =>
      if decide (MAX_PLAYERS ≤ length (elements (players roomData)))%nat
      then throw (Error "Room is full") else
      update_players roomId playerId;;
      (* Notify only the host about the new player *)
      addNotification roomId (host roomData) (new_player playerId);;
      mret (Result (Some "Joined room") (Some roomId) (Some (host roomData)) None)
  end.

(** `leaveRoom(roomId, playerId)`.  `Object.keys(updatedPlayers)[0]` is
    read only where `updatedPlayers` is not null, that is, not empty; the
    branch for an empty enumeration stands for the `undefined` the store
    would refuse. *)
Definition leaveRoom (roomId playerId : string) : M result :=
  roomSnapshot ← once_room roomId;
  match roomSnapshot with
  | None => throw (Error "Room not found")
  | Some roomData =>
      remove_player roomId playerId;;
      updatedPlayersSnapshot ← once_players roomId;
      match updatedPlayersSnapshot with
      | None =>
          remove_room roomId;;
          mret (Result (Some "Room closed (last player left)") None None None)
      | Some updatedPlayers =>
          (* If the host left, assign a new host *)
          (if decide (playerId = host roomData) then
             match head (elements updatedPlayers) with
             | Some newHost => update_host roomId newHost
             | None => throw (Error "update failed: undefined host")
             end
           else mret tt);;
          (* Notify remaining players about the player who left *)
          for_each (elements updatedPlayers) (λ remainingPlayerId,
            addNotification roomId remainingPlayerId (player_left playerId));;
          mret (Result (Some "Left room") None None None)
      end
  end.

(** `sendOffer(roomId, senderId, targetId, offer)` *)
Definition sendOffer (roomId senderId targetId : string) (o : json) : M result :=
  roomSnapshot ← once_room roomId;
  match roomSnapshot with
  | None => throw (Error "Room not found")
  | Some roomData =>
      (* Ensure the offer is from the host to a client or from a client to the host *)
      if decide (senderId ≠ host roomData ∧ targetId ≠ host roomData)
      then throw (Error "Invalid offer direction") else
      set_offer roomId senderId o;;
      addNotification roomId targetId (offer senderId o);;
      mret (Result (Some "Offer sent") None None None)
  end.

(** `sendAnswer(roomId, senderId, targetId, answer)` *)
Definition sendAnswer (roomId senderId targetId : string) (a : json) : M result :=
  roomSnapshot ← once_room roomId;
  match roomSnapshot with
  | None => throw (Error "Room not found")
  | Some roomData =>
      set_answer roomId senderId a;;
      addNotification roomId targetId (answer senderId a);;
      mret (Result (Some "Answer sent") None None None)
  end.

(** The `updates` object of `sendIceCandidates`: one path per candidate;
    [clock index] is what `Date.now()` returns in the callback of the
    candidate at [index]. *)
Fixpoint ice_updates (clock : nat → Z) (index : nat) (candidates : list json)
    : list (Z * nat * json) :=
  match candidates with
  | [] => []
  | candidate :: rest =>
      (clock index, index, candidate) :: ice_updates clock (S index) rest
  end.

(** `sendIceCandidates(roomId, senderId, targetId, candidates)`; a payload
    that is not an array has no `forEach`. *)
Definition sendIceCandidates (clock : nat → Z)
    (roomId senderId targetId : string) (candidates : json) : M result :=
  roomSnapshot ← once_room roomId;
  if roomSnapshot is None then throw (Error "Room not found") else
  match candidates with
  | JAtom _ => throw (Error "candidates.forEach is not a function")
  | JArray items =>
      update_ice_candidates roomId senderId (ice_updates clock 0 items);;
      addNotification roomId targetId (new_ice_candidates senderId candidates);;
      mret (Result (Some "ICE candidates sent") None None None)
  end.

(** `pollNotifications(roomId, playerId)` *)
Definition pollNotifications (roomId playerId : string) : M result :=
  snapshot ← once_notifications roomId playerId;
  let pending := default [] snapshot in
  (* Clear the notifications after reading them *)
  remove_notifications roomId playerId;;
  mret (Result None None None (Some pending)).

(** `cleanupInactiveRooms`, run at `Date.now() = now`. *)
Definition cleanupInactiveRooms (now : Z) : M unit :=
  let cutoff := (now - ROOM_TIMEOUT)%Z in
  rooms ← once_rooms;
  for_each (map_to_list rooms) (λ '(roomId, r),
    if decide (createdAt r < cutoff)%Z then remove_room roomId else mret tt).

(** ** The request handler `webRTCSignaling` *)

Record request : Type := Request {
  action : string;
  req_roomId : string;
  req_playerId : string;
  req_targetId : string;
  req_data : json
}.

(** `response.json({success: true, ...result})`, or status 400 with
    `{success: false, message}`. *)
Inductive response : Type :=
  | Success (r : result)
  | Failure (message : string).

Definition dispatch (now : Z) (clock : nat → Z) (q : request) : M result :=
  match action q with
  | "create_room" => createRoom now (req_roomId q) (req_playerId q)
  | "join_room" => joinRoom (req_roomId q) (req_playerId q)
  | "poll_notifications" => pollNotifications (req_roomId q) (req_playerId q)
  | "leave_room" => leaveRoom (req_roomId q) (req_playerId q)
  | "offer" => sendOffer (req_roomId q) (req_playerId q) (req_targetId q) (req_data q)
  | "answer" => sendAnswer (req_roomId q) (req_playerId q) (req_targetId q) (req_data q)
  | "ice_candidates" =>
      sendIceCandidates clock (req_roomId q) (req_playerId q) (req_targetId q) (req_data q)
  | other => throw (Error ("Invalid action: " +:+ other))
  end.

Definition webRTCSignaling (now : Z) (clock : nat → Z) (q : request)
    (s : store) : response * store :=
  match dispatch now clock q s with
  | (Returned r, s') => (Success r, s')
  | (Thrown (Error message), s') => (Failure message, s')
  end.

(** ** The results the program returns, by name *)

Definition joined_room (roomId hostId : string) : result :=
  Result (Some "Joined room") (Some roomId) (Some hostId) None.
Definition room_closed : result :=
  Result (Some "Room closed (last player left)") None None None.
Definition left_room : result := Result (Some "Left room") None None None.
Definition polled (pending : list notification) : result :=
  Result None None None (Some pending).

(** `push` on one mailbox of a room's `notifications` child. *)
Definition push_box (playerId : string) (n : notification)
    (boxes : gmap string (list notification)) : gmap string (list notification) :=
  <[playerId := default [] (boxes !! playerId) ++ [n]]> boxes.



(** ** Definitions the statements use *)


(** The `notifications` child after the loop that notifies the players of
    [l], in that order. *)
Definition notify_all (l : list string) (n : notification)
    (boxes : gmap string (list notification)) : gmap string (list notification) :=
  foldl (λ boxes' q, push_box q n boxes') boxes l.

(** The host after a departure that leaves somebody:
    `Object.keys(updatedPlayers)[0]` when the host left. *)
Definition host_after (r : room) (playerId : string) : string :=
  if decide (playerId = host r)
  then default playerId (head (elements (players r ∖ {[playerId]})))
  else host r.



(** The store after the loop of the sweep over the rooms of [l]. *)
Definition sweep (cutoff : Z) (l : list (string * room)) (s : store) : store :=
  foldl (λ s' '(roomId, r),
           if decide (createdAt r < cutoff)%Z then delete roomId s' else s') s l.




(** The actions the handler's `switch` has a case for. *)
Definition known_actions : list string :=
  ["create_room"; "join_room"; "poll_notifications"; "leave_room";
   "offer"; "answer"; "ice_candidates"].






(** * Properties *)

(** ** Running the monad *)

Lemma bind_run {A B} (m : M A) (f : A → M B) (s : store) :
  (m ≫= f) s = match m s with
               | (Returned a, s') => f a s'
               | (Thrown e, s') => (Thrown e, s')
               end.
Proof. reflexivity. Qed.

Ltac run :=
  repeat (rewrite bind_run; cbn [once_room set_room remove_room update_players
    remove_player once_players update_host set_offer set_answer
    update_ice_candidates once_notifications remove_notifications once_rooms
    addNotification throw mret M_mret M_ret]).

(** A write below a room that is present replaces the room. *)
Lemma alter_room (f : room → room) (s : store) roomId r :
  s !! roomId = Some r → alter f roomId s = <[roomId := f r]> s.
Proof.
  intros Hr. apply map_eq. intros k.
  destruct (decide (roomId = k)) as [<-|Hne].
  - by rewrite lookup_alter_eq, lookup_insert_eq, Hr.
  - by rewrite lookup_alter_ne, lookup_insert_ne.
Qed.

Lemma mailbox_insert (s : store) roomId r roomId' playerId :
  mailbox (<[roomId := r]> s) roomId' playerId =
    if decide (roomId = roomId') then default [] (notifications r !! playerId)
    else mailbox s roomId' playerId.
Proof.
  unfold mailbox. case_decide as Heq.
  - subst. by rewrite lookup_insert_eq.
  - by rewrite lookup_insert_ne.
Qed.

Lemma mailbox_present (s : store) roomId r playerId :
  s !! roomId = Some r →
  mailbox s roomId playerId = default [] (notifications r !! playerId).
Proof. unfold mailbox. by intros ->. Qed.

Lemma mailbox_absent (s : store) roomId playerId :
  s !! roomId = None → mailbox s roomId playerId = [].
Proof. unfold mailbox. by intros ->. Qed.

Lemma push_box_lookup playerId n boxes q :
  default [] (push_box playerId n boxes !! q) =
    if decide (playerId = q) then default [] (boxes !! q) ++ [n]
    else default [] (boxes !! q).
Proof.
  unfold push_box. case_decide as Heq.
  - subst. by rewrite lookup_insert_eq.
  - by rewrite lookup_insert_ne.
Qed.

(** ** addNotification *)

Lemma addNotification_present (s : store) roomId r playerId n :
  s !! roomId = Some r →
  addNotification roomId playerId n s =
    (Returned tt, <[roomId := with_notifications (push_box playerId n) r]> s).
Proof. intros Hr. unfold addNotification. by rewrite (alter_room _ _ _ r). Qed.

(** ** createRoom *)





(** ** A room id with no room *)

Lemma joinRoom_missing (s : store) roomId playerId :
  s !! roomId = None → joinRoom roomId playerId s = (Thrown NotFound, s).
Proof. intros Hr. unfold joinRoom. run. by rewrite Hr. Qed.

Lemma leaveRoom_missing (s : store) roomId playerId :
  s !! roomId = None → leaveRoom roomId playerId s = (Thrown NotFound, s).
Proof. intros Hr. unfold leaveRoom. run. by rewrite Hr. Qed.








(** ** joinRoom *)

Lemma joinRoom_full (s : store) roomId playerId r :
  s !! roomId = Some r →
  (MAX_PLAYERS ≤ size (players r))%nat →
  joinRoom roomId playerId s = (Thrown RoomFull, s).
Proof.
  intros Hr Hfull. unfold joinRoom. run. rewrite Hr.
  change (length (elements (players r))) with (size (players r)).
  by rewrite decide_True.
Qed.

Lemma joinRoom_joined (s : store) roomId playerId r :
  s !! roomId = Some r →
  (size (players r) < MAX_PLAYERS)%nat →
  joinRoom roomId playerId s =
    (Returned (joined_room roomId (host r)),
     <[roomId := with_notifications (push_box (host r) (new_player playerId))
                   (with_players (λ ps, {[playerId]} ∪ ps) r)]> s).
Proof.
  intros Hr Hfree. unfold joinRoom. run. rewrite Hr.
  change (length (elements (players r))) with (size (players r)).
  rewrite decide_False by lia. run.
  rewrite (alter_room _ s _ r) by done.
  rewrite (alter_room _ _ _ (with_players (λ ps, {[playerId]} ∪ ps) r))
    by apply lookup_insert_eq.
  by rewrite insert_insert_eq.
Qed.

(** What a successful join leaves: the room with one more member, the same
    host, and one `new_player` notification more, in the host's mailbox. *)
Lemma joinRoom_joined_effect (s : store) roomId playerId r :
  s !! roomId = Some r →
  (size (players r) < MAX_PLAYERS)%nat →
  ∃ s' r',
    joinRoom roomId playerId s = (Returned (joined_room roomId (host r)), s') ∧
    s' !! roomId = Some r' ∧
    players r' = {[playerId]} ∪ players r ∧
    host r' = host r ∧
    (∀ roomId', roomId' ≠ roomId → s' !! roomId' = s !! roomId') ∧
    (∀ roomId' q,
       mailbox s' roomId' q =
         if decide (roomId' = roomId ∧ q = host r)
         then mailbox s roomId' q ++ [new_player playerId]
         else mailbox s roomId' q).
Proof.
  intros Hr Hfree. eexists _, _.
  split; [by apply joinRoom_joined|].
  split; [by apply lookup_insert_eq|].
  split_and!; [done|done| |].
  - intros roomId' Hne. by rewrite lookup_insert_ne.
  - intros roomId' q. rewrite mailbox_insert. cbn [notifications with_notifications
      with_players]. rewrite push_box_lookup.
    destruct (decide (roomId = roomId')) as [<-|Hne].
    + rewrite (mailbox_present s roomId r) by done.
      destruct (decide (host r = q)) as [<-|Hq].
      * by rewrite decide_True.
      * rewrite decide_False; [done|]. intros [_ ->]. done.
    + rewrite decide_False; [done|]. intros [-> _]. done.
Qed.



(** C10: for a player already in the room, join_room fails with
    `Room is full` when the room is at capacity (the count includes the
    player itself), the store staying as it was; below capacity it succeeds,
    the player set and the host are what they were, and the host's mailbox
    has one more `new_player` notification carrying the player id. *)
Theorem joinRoom_member_again
    (s : store) (roomId playerId : string) (r : room) :
  s !! roomId = Some r →
  playerId ∈ players r →
  ((MAX_PLAYERS ≤ size (players r))%nat →
     joinRoom roomId playerId s = (Thrown RoomFull, s)) ∧
  ((size (players r) < MAX_PLAYERS)%nat →
     ∃ s' r',
       joinRoom roomId playerId s = (Returned (joined_room roomId (host r)), s') ∧
       s' !! roomId = Some r' ∧
       players r' = players r ∧
       host r' = host r ∧
       mailbox s' roomId (host r) =
         mailbox s roomId (host r) ++ [new_player playerId]).
Proof.
  intros Hr Hmember. split.
  - by apply joinRoom_full.
  - intros Hfree.
    destruct (joinRoom_joined_effect s roomId playerId r Hr Hfree)
      as (s' & r' & Hrun & Hr' & Hplayers & Hhost & _ & Hboxes).
    exists s', r'. split_and!; try done.
    + rewrite Hplayers. by apply subseteq_union_1_L, singleton_subseteq_l.
    + rewrite Hboxes. by rewrite decide_True.
Qed.

Lemma joinRoom_member_again_witness :
  let r := Room "host1" {["host1"; "p2"]} 1000 ∅ ∅ ∅
                {["host1" := [new_player "p2"]]} in
  let s : store := {["R1" := r]} in
  ∃ s' r',
    joinRoom "R1" "p2" s = (Returned (joined_room "R1" "host1"), s') ∧
    s' !! "R1" = Some r' ∧
    players r' = {["host1"; "p2"]} ∧
    host r' = "host1" ∧
    mailbox s' "R1" "host1" = [new_player "p2"; new_player "p2"].
Proof.
  intros r s.
  assert (Hr : s !! "R1" = Some r) by reflexivity.
  assert (Hmember : "p2" ∈ players r).
  { cbn. apply elem_of_union_r. by apply elem_of_singleton. }
  assert (Hsize : (size (players r) < MAX_PLAYERS)%nat) by (vm_compute; lia).
  exact (proj2 (joinRoom_member_again s "R1" "p2" r Hr Hmember) Hsize).
Defined.

(** ** leaveRoom *)

Lemma with_notifications_id (r : room) : with_notifications (λ boxes, boxes) r = r.
Proof. by destruct r. Qed.

Lemma for_each_addNotification (l : list string) (n : notification) :
  ∀ (s : store) roomId r,
    s !! roomId = Some r →
    for_each l (λ q, addNotification roomId q n) s =
      (Returned tt, <[roomId := with_notifications (notify_all l n) r]> s).
Proof.
  induction l as [|q l IH]; intros s roomId r Hr.
  - cbn. unfold notify_all. cbn.
    by rewrite with_notifications_id, insert_id.
  - cbn [for_each]. rewrite bind_run.
    rewrite (addNotification_present s roomId r) by done.
    rewrite (IH _ roomId (with_notifications (push_box q n) r))
      by apply lookup_insert_eq.
    by rewrite insert_insert_eq.
Qed.

Lemma notify_all_lookup (l : list string) (n : notification) :
  ∀ boxes q,
    NoDup l →
    default [] (notify_all l n boxes !! q) =
      if decide (q ∈ l) then default [] (boxes !! q) ++ [n]
      else default [] (boxes !! q).
Proof.
  induction l as [|p l IH]; intros boxes q Hnodup.
  - cbn. rewrite decide_False; [done|]. apply not_elem_of_nil.
  - apply NoDup_cons in Hnodup as [Hp Hnodup].
    change (notify_all (p :: l) n boxes) with (notify_all l n (push_box p n boxes)).
    rewrite IH by done. rewrite push_box_lookup.
    destruct (decide (p = q)) as [<-|Hne].
    + rewrite decide_False by done. rewrite decide_True; [done|]. by left.
    + destruct (decide (q ∈ l)) as [Hin|Hnin].
      * rewrite decide_True; [done|]. by right.
      * rewrite decide_False; [done|].
        rewrite elem_of_cons. intros [->|?]; done.
Qed.

Lemma leaveRoom_last (s : store) roomId playerId r :
  s !! roomId = Some r →
  players r ∖ {[playerId]} = ∅ →
  leaveRoom roomId playerId s = (Returned room_closed, delete roomId s).
Proof.
  intros Hr Hempty. unfold leaveRoom. run. rewrite Hr. run.
  rewrite (alter_room _ s _ r) by done.
  rewrite lookup_insert_eq. cbn.
  rewrite decide_True by done. run.
  by rewrite delete_insert_eq.
Qed.

Lemma leaveRoom_remaining (s : store) roomId playerId r :
  s !! roomId = Some r →
  players r ∖ {[playerId]} ≠ ∅ →
  leaveRoom roomId playerId s =
    (Returned left_room,
     <[roomId := with_notifications
                   (notify_all (elements (players r ∖ {[playerId]}))
                               (player_left playerId))
                   (with_host (host_after r playerId)
                      (with_players (λ ps, ps ∖ {[playerId]}) r))]> s).
Proof.
  intros Hr Hrest. unfold leaveRoom. run. rewrite Hr. run.
  rewrite (alter_room _ s _ r) by done.
  rewrite lookup_insert_eq. cbn [mbind option_bind players with_players].
  rewrite decide_False by done. run.
  set (rest := players r ∖ {[playerId]}) in *.
  set (r1 := with_players (λ ps, ps ∖ {[playerId]}) r).
  assert (Hstep :
    (if decide (playerId = host r)
     then match head (elements rest) with
          | Some newHost => update_host roomId newHost
          | None => throw (Error "update failed: undefined host")
          end
     else mret tt) (<[roomId := r1]> s) =
    (Returned tt, <[roomId := with_host (host_after r playerId) r1]> s)).
  { unfold host_after. fold rest. destruct (decide (playerId = host r)) as [Hhost|Hhost].
    - destruct (elements rest) as [|newHost others] eqn:Hkeys.
      + apply elements_empty_inv in Hkeys. by apply leibniz_equiv in Hkeys.
      + cbn. unfold update_host.
        rewrite (alter_room _ _ _ r1) by apply lookup_insert_eq.
        by rewrite insert_insert_eq.
    - reflexivity. }
  rewrite Hstep. run.
  rewrite (for_each_addNotification _ _ _ roomId (with_host (host_after r playerId) r1))
    by apply lookup_insert_eq.
  cbn. by rewrite insert_insert_eq.
Qed.

(** What a departure that leaves somebody does to the room and to the
    mailboxes. *)
Lemma leaveRoom_remaining_effect (s : store) roomId playerId r :
  s !! roomId = Some r →
  players r ∖ {[playerId]} ≠ ∅ →
  ∃ s' r',
    leaveRoom roomId playerId s = (Returned left_room, s') ∧
    s' !! roomId = Some r' ∧
    players r' = players r ∖ {[playerId]} ∧
    host r' = host_after r playerId ∧
    (∀ q, q ∈ players r' →
       mailbox s' roomId q = mailbox s roomId q ++ [player_left playerId]) ∧
    (∀ q, q ∉ players r' → mailbox s' roomId q = mailbox s roomId q) ∧
    (∀ roomId', roomId' ≠ roomId → s' !! roomId' = s !! roomId').
Proof.
  intros Hr Hrest. eexists _, _.
  split; [by apply leaveRoom_remaining|].
  split; [by apply lookup_insert_eq|].
  cbn [players host with_notifications with_host with_players].
  split_and!; try done.
  - intros q Hq. rewrite mailbox_insert, decide_True by done.
    cbn [notifications with_notifications with_host with_players].
    rewrite notify_all_lookup by apply NoDup_elements.
    rewrite decide_True by by apply elem_of_elements.
    by rewrite (mailbox_present s roomId r).
  - intros q Hq. rewrite mailbox_insert, decide_True by done.
    cbn [notifications with_notifications with_host with_players].
    rewrite notify_all_lookup by apply NoDup_elements.
    rewrite decide_False by by rewrite elem_of_elements.
    by rewrite (mailbox_present s roomId r).
  - intros roomId' Hne. by rewrite lookup_insert_ne.
Qed.

Lemma host_after_host (r : room) :
  players r ∖ {[host r]} ≠ ∅ →
  head (elements (players r ∖ {[host r]})) = Some (host_after r (host r)) ∧
  host_after r (host r) ∈ players r ∖ {[host r]}.
Proof.
  intros Hrest. unfold host_after. rewrite decide_True by done.
  destruct (elements (players r ∖ {[host r]})) as [|newHost others] eqn:Hkeys.
  - apply elements_empty_inv in Hkeys. by apply leibniz_equiv in Hkeys.
  - cbn. split; [done|]. apply elem_of_elements. rewrite Hkeys. by left.
Qed.



(** The scenario of the specification: with players host1 and p2, after
    host1 leaves, p2 is the host and p2's poll returns `player_left` of
    host1. *)
Example leaveRoom_scenario :
  let s0 : store := ∅ in
  let s1 := (createRoom 1000 "R1" "host1" s0).2 in
  let s2 := (joinRoom "R1" "p2" s1).2 in
  let s3 := (leaveRoom "R1" "host1" s2).2 in
  host <$> s3 !! "R1" = Some "p2" ∧
  (pollNotifications "R1" "p2" s3).1 = Returned (polled [player_left "host1"]).
Proof. by vm_compute. Qed.

(** C7: when the player set is exactly the departing player, leave_room
    returns `Room closed (last player left)` and removes the room with
    everything below it: reading the room id back finds nothing and the other
    operations on it fail with `Room not found`; nothing is pushed: no mailbox
    is left under that room id and the other rooms are as they were. *)
Theorem leaveRoom_last_player_closes_room
    (s : store) (roomId playerId : string) (r : room) :
  s !! roomId = Some r →
  players r = {[playerId]} →
  ∃ s',
    leaveRoom roomId playerId s = (Returned room_closed, s') ∧
    s' = delete roomId s ∧
    once_room roomId s' = (Returned None, s') ∧
    (∀ p, joinRoom roomId p s' = (Thrown NotFound, s')) ∧
    (∀ p, leaveRoom roomId p s' = (Thrown NotFound, s')) ∧
    (∀ q, mailbox s' roomId q = []) ∧
    (∀ roomId', roomId' ≠ roomId → s' !! roomId' = s !! roomId') ∧
    (∀ roomId' q n, n ∈ mailbox s' roomId' q → n ∈ mailbox s roomId' q).
Proof.
  intros Hr Hplayers.
  assert (Hgone : delete roomId s !! roomId = None) by apply lookup_delete_eq.
  exists (delete roomId s). split_and!; try done.
  - apply (leaveRoom_last s roomId playerId r Hr).
    rewrite Hplayers. apply difference_diag_L.
  - unfold once_room. by rewrite Hgone.
  - intros p. by apply joinRoom_missing.
  - intros p. by apply leaveRoom_missing.
  - intros q. by apply mailbox_absent.
  - intros roomId' Hne. by rewrite lookup_delete_ne.
  - intros roomId' q n. destruct (decide (roomId' = roomId)) as [->|Hne].
    + rewrite (mailbox_absent _ _ _ Hgone). by intros ?%elem_of_nil.
    + unfold mailbox. by rewrite lookup_delete_ne.
Qed.

Lemma leaveRoom_last_player_closes_room_witness :
  let r := Room "host1" {["host1"]} 1000 ∅ ∅ ∅ {["host1" := [new_player "p2"]]} in
  let s : store := {["R1" := r]} in
  ∃ s',
    leaveRoom "R1" "host1" s = (Returned room_closed, s') ∧
    s' = delete "R1" s ∧
    once_room "R1" s' = (Returned None, s') ∧
    (∀ p, joinRoom "R1" p s' = (Thrown NotFound, s')) ∧
    (∀ p, leaveRoom "R1" p s' = (Thrown NotFound, s')) ∧
    (∀ q, mailbox s' "R1" q = []) ∧
    (∀ roomId', roomId' ≠ "R1" → s' !! roomId' = s !! roomId') ∧
    (∀ roomId' q n, n ∈ mailbox s' roomId' q → n ∈ mailbox s roomId' q).
Proof.
  intros r s.
  exact (leaveRoom_last_player_closes_room s "R1" "host1" r eq_refl eq_refl).
Defined.



(** ** sendOffer and sendAnswer *)

Lemma sendOffer_invalid (s : store) roomId senderId targetId payload r :
  s !! roomId = Some r →
  senderId ≠ host r → targetId ≠ host r →
  sendOffer roomId senderId targetId payload s = (Thrown InvalidDirection, s).
Proof.
  intros Hr Hs Ht. unfold sendOffer. run. rewrite Hr.
  by rewrite decide_True.
Qed.





(** ** pollNotifications *)









(** The scenario of the specification: after create_room and join_room, the
    join returns host1 as host id and the host's poll returns one
    `new_player` of p2; and notifications of different operations come out in
    the order the operations ran. *)
Example poll_scenario :
  let s0 : store := ∅ in
  let s1 := (createRoom 1000 "R1" "host1" s0).2 in
  let joined := joinRoom "R1" "p2" s1 in
  let s3 := (sendOffer "R1" "p2" "host1" (JAtom "o") joined.2).2 in
  let s4 := (sendAnswer "R1" "p2" "host1" (JAtom "a") s3).2 in
  joined.1 = Returned (joined_room "R1" "host1") ∧
  (pollNotifications "R1" "host1" joined.2).1 =
    Returned (polled [new_player "p2"]) ∧
  (pollNotifications "R1" "host1" s4).1 =
    Returned (polled [new_player "p2"; offer "p2" (JAtom "o");
                      answer "p2" (JAtom "a")]).
Proof. by vm_compute. Qed.

(** ** cleanupInactiveRooms *)

Lemma sweep_cons (cutoff : Z) roomId r (l : list (string * room)) (s : store) :
  sweep cutoff ((roomId, r) :: l) s =
    sweep cutoff l (if decide (createdAt r < cutoff)%Z then delete roomId s else s).
Proof. reflexivity. Qed.

Lemma for_each_sweep (cutoff : Z) (l : list (string * room)) :
  ∀ s : store,
    for_each l (λ '(roomId, r),
      if decide (createdAt r < cutoff)%Z then remove_room roomId else mret tt) s =
    (Returned tt, sweep cutoff l s).
Proof.
  induction l as [|[roomId r] l IH]; intros s; [done|].
  cbn [for_each]. rewrite bind_run, sweep_cons.
  case_decide; cbn; apply IH.
Qed.

Lemma sweep_absent (cutoff : Z) (l : list (string * room)) :
  ∀ (s : store) roomId, s !! roomId = None → sweep cutoff l s !! roomId = None.
Proof.
  induction l as [|[k r] l IH]; intros s roomId Hnone; [done|].
  rewrite sweep_cons.
  apply IH. case_decide; [|done].
  rewrite lookup_delete. by case_decide.
Qed.

Lemma sweep_expired (cutoff : Z) (l : list (string * room)) :
  ∀ (s : store) roomId r,
    (roomId, r) ∈ l → (createdAt r < cutoff)%Z →
    sweep cutoff l s !! roomId = None.
Proof.
  induction l as [|[k r0] l IH]; intros s roomId r Hin Hold.
  - by apply elem_of_nil in Hin.
  - rewrite sweep_cons.
    apply elem_of_cons in Hin as [[= <- <-]|Hin].
    + rewrite decide_True by done. apply sweep_absent, lookup_delete_eq.
    + by apply (IH _ roomId r).
Qed.

Lemma sweep_kept (cutoff : Z) (l : list (string * room)) :
  ∀ (s : store) roomId,
    (∀ r, (roomId, r) ∈ l → ¬ (createdAt r < cutoff)%Z) →
    sweep cutoff l s !! roomId = s !! roomId.
Proof.
  induction l as [|[k r0] l IH]; intros s roomId Hyoung; [done|].
  rewrite sweep_cons.
  rewrite IH by (intros r Hin; apply Hyoung; by right).
  case_decide as Hold; [|done].
  apply lookup_delete_ne. intros ->. apply (Hyoung r0); [by left|done].
Qed.

Lemma cleanupInactiveRooms_lookup (now : Z) (s : store) :
  ∃ s',
    cleanupInactiveRooms now s = (Returned tt, s') ∧
    ∀ roomId,
      s' !! roomId =
        r ← s !! roomId;
        if decide (createdAt r < now - ROOM_TIMEOUT)%Z then None else Some r.
Proof.
  exists (sweep (now - ROOM_TIMEOUT) (map_to_list s) s). split.
  - unfold cleanupInactiveRooms. run. apply for_each_sweep.
  - intros roomId. destruct (s !! roomId) as [r|] eqn:Hr; cbn.
    + case_decide as Hold.
      * apply (sweep_expired _ _ _ roomId r); [|done].
        by apply elem_of_map_to_list.
      * rewrite sweep_kept; [done|].
        intros r' Hin%elem_of_map_to_list. congruence.
    + by apply sweep_absent.
Qed.

(** C8: the sweep at time [now] returns, and deletes exactly the rooms whose
    createdAt is below `now - ROOM_TIMEOUT` (24 hours): such a room is gone, a
    room that is not older stays as it was, and no room appears; a room
    created 25 hours before [now] is deleted and one created 1 hour before is
    kept unchanged.  Nothing is pushed: every notification in a mailbox after
    the sweep was in that mailbox before. *)
Theorem cleanupInactiveRooms_deletes_exactly_expired (now : Z) (s : store) :
  ROOM_TIMEOUT = (24 * 3600 * 1000)%Z ∧
  ∃ s',
    cleanupInactiveRooms now s = (Returned tt, s') ∧
    (∀ roomId,
       s' !! roomId =
         r ← s !! roomId;
         if decide (createdAt r < now - ROOM_TIMEOUT)%Z then None else Some r) ∧
    (∀ roomId r, s !! roomId = Some r →
       createdAt r = (now - 25 * 3600 * 1000)%Z → s' !! roomId = None) ∧
    (∀ roomId r, s !! roomId = Some r →
       createdAt r = (now - 1 * 3600 * 1000)%Z → s' !! roomId = Some r) ∧
    (∀ roomId q n, n ∈ mailbox s' roomId q → n ∈ mailbox s roomId q).
Proof.
  split; [reflexivity|].
  destruct (cleanupInactiveRooms_lookup now s)
    as (s' & Hrun & Hlookup).
  exists s'.
  split_and!.
  - exact Hrun.
  - exact Hlookup.
  - intros roomId r Hr Hcreated. rewrite Hlookup, Hr. cbn.
    rewrite decide_True; [done|]. unfold ROOM_TIMEOUT. lia.
  - intros roomId r Hr Hcreated. rewrite Hlookup, Hr. cbn.
    rewrite decide_False; [done|]. unfold ROOM_TIMEOUT. lia.
  - intros roomId q n. unfold mailbox. rewrite Hlookup.
    destruct (s !! roomId) as [r|]; cbn; [|done].
    case_decide; cbn; [|done]. by intros ?%elem_of_nil.
Qed.

(** The scenario of the specification, run: at `now`, of a room created 25
    hours ago and a room created 1 hour ago, the sweep removes the first and
    keeps the second with its pending notification. *)
Example cleanup_scenario :
  let now := 1700000000000%Z in
  let old := Room "h1" {["h1"]} (now - 25 * 3600 * 1000) ∅ ∅ ∅ ∅ in
  let young := Room "h2" {["h2"]} (now - 1 * 3600 * 1000) ∅ ∅ ∅
                    {["h2" := [new_player "p"]]} in
  let s : store := {["R1" := old; "R2" := young]} in
  let s' := (cleanupInactiveRooms now s).2 in
  s' !! "R1" = None ∧ s' !! "R2" = Some young ∧
  mailbox s' "R2" "h2" = [new_player "p"].
Proof. by vm_compute. Qed.

(** ** The data-model invariant is kept

    The rooms the program makes satisfy [room_ok], and every operation keeps
    it on every room: whatever the requests, a room in the store has its host
    among its players and at most MAX_PLAYERS players. *)



















(** ** The request handler *)

(** An action without a case falls to the `default` of the `switch`. *)
Lemma dispatch_unknown now clock (q : request) :
  action q ∉ known_actions →
  dispatch now clock q = throw (InvalidAction (action q)).
Proof.
  destruct q as [act roomId playerId targetId data].
  cbn [action]. unfold known_actions.
  rewrite !not_elem_of_cons. intros (H1 & H2 & H3 & H4 & H5 & H6 & H7 & _).
  unfold dispatch, InvalidAction.
  cbn [action req_roomId req_playerId req_targetId req_data].
  repeat (match goal with
          | |- context [match ?x with _ => _ end] => destruct x
          end);
    first [ reflexivity | congruence ].
Qed.


(** X1: an action the `switch` has no case for is answered with the failure
    `Invalid action: <action>`, and the store stays as it was. *)
Theorem unknown_action_rejected now clock (q : request) (s : store) :
  action q ∉ known_actions →
  webRTCSignaling now clock q s =
    (Failure ("Invalid action: " +:+ action q), s).
Proof.
  intros Hout. unfold webRTCSignaling. by rewrite dispatch_unknown.
Qed.

Lemma unknown_action_rejected_witness :
  let q := Request "kick_player" "R1" "p1" "p2" (JAtom "") in
  let s : store := {["R1" := Room "p1" {["p1"; "p2"]} 1000 ∅ ∅ ∅ ∅]} in
  webRTCSignaling 0 (λ _, 0%Z) q s = (Failure "Invalid action: kick_player", s).
Proof.
  intros q s.
  apply (unknown_action_rejected 0 (λ _, 0%Z) q s).
  unfold known_actions, q. cbn [action].
  rewrite !not_elem_of_cons. split_and!; try discriminate. apply not_elem_of_nil.
Defined.

(** ** sendIceCandidates *)








(** ** A request that fails *)










(** ** What one request may change *)

























(** ** More of leaveRoom *)



(** X11: when a member who is not the host leaves a room whose host is a
    member, leave_room answers `Left room`, removes that player only, keeps
    the host, appends `player_left` to the mailbox of every remaining player,
    the host included, and leaves the mailbox of the player who left as it
    was. *)
Theorem leaveRoom_member_not_host
    (s : store) (roomId playerId : string) (r : room) :
  s !! roomId = Some r →
  host r ∈ players r →
  playerId ∈ players r →
  playerId ≠ host r →
  ∃ s' r',
    leaveRoom roomId playerId s = (Returned left_room, s') ∧
    s' !! roomId = Some r' ∧
    players r' = players r ∖ {[playerId]} ∧
    host r' = host r ∧
    host r' ∈ players r' ∧
    (∀ q, q ∈ players r' →
       mailbox s' roomId q = mailbox s roomId q ++ [player_left playerId]) ∧
    mailbox s' roomId playerId = mailbox s roomId playerId.
Proof.
  intros Hr Hhost Hmember Hne.
  assert (Hstays : host r ∈ players r ∖ {[playerId]}).
  { apply elem_of_difference. split; [done|].
    rewrite elem_of_singleton. congruence. }
  assert (Hrest : players r ∖ {[playerId]} ≠ ∅).
  { intros Hempty. rewrite Hempty in Hstays. by apply not_elem_of_empty in Hstays. }
  destruct (leaveRoom_remaining_effect s roomId playerId r Hr Hrest)
    as (s' & r' & Hrun & Hr' & Hplayers & Hhost' & Hin & Hout & _).
  assert (Hsame : host r' = host r).
  { rewrite Hhost'. unfold host_after. by rewrite decide_False. }
  exists s', r'. rewrite Hsame, Hplayers in *. split_and!; try done.
  apply Hout. rewrite elem_of_difference, elem_of_singleton. by intros [_ ?].
Qed.

Lemma leaveRoom_member_not_host_witness :
  let r := Room "host1" {["host1"; "p2"]} 1000 ∅ ∅ ∅ ∅ in
  let s : store := {["R1" := r]} in
  ∃ s' r',
    leaveRoom "R1" "p2" s = (Returned left_room, s') ∧
    s' !! "R1" = Some r' ∧
    players r' = players r ∖ {["p2"]} ∧
    host r' = host r ∧
    host r' ∈ players r' ∧
    (∀ q, q ∈ players r' →
       mailbox s' "R1" q = mailbox s "R1" q ++ [player_left "p2"]) ∧
    mailbox s' "R1" "p2" = mailbox s "R1" "p2".
Proof.
  intros r s.
  assert (Hhost : host r ∈ players r).
  { cbn. apply elem_of_union_l. by apply elem_of_singleton. }
  assert (Hmember : "p2" ∈ players r).
  { cbn. apply elem_of_union_r. by apply elem_of_singleton. }
  assert (Hne : "p2" ≠ host r) by discriminate.
  exact (leaveRoom_member_not_host s "R1" "p2" r eq_refl Hhost Hmember Hne).
Defined.

(** ** Operations in sequence *)









(** X16: once the host has left and somebody is left, the old host id no
    longer opens a direction: an offer addressed to the old host by any sender
    other than the new host fails with `Invalid offer direction` and writes
    nothing. *)
Theorem offer_to_departed_host_rejected
    (s : store) (roomId : string) (r : room) :
  s !! roomId = Some r →
  players r ∖ {[host r]} ≠ ∅ →
  ∃ s' r',
    leaveRoom roomId (host r) s = (Returned left_room, s') ∧
    s' !! roomId = Some r' ∧
    host r' ≠ host r ∧
    ∀ senderId payload,
      senderId ≠ host r' →
      sendOffer roomId senderId (host r) payload s' = (Thrown InvalidDirection, s').
Proof.
  intros Hr Hrest.
  destruct (leaveRoom_remaining_effect s roomId (host r) r Hr Hrest)
    as (s' & r' & Hrun & Hr' & Hplayers & Hhost & _).
  destruct (host_after_host r Hrest) as [_ Hmember].
  assert (Hnew : host r' ≠ host r).
  { rewrite Hhost. intros Heq. apply elem_of_difference in Hmember as [_ Hother].
    apply Hother. by apply elem_of_singleton. }
  exists s', r'. split_and!; try done.
  intros senderId payload Hsender.
  by apply (sendOffer_invalid s' roomId senderId (host r) payload r').
Qed.

Lemma offer_to_departed_host_rejected_witness :
  let r := Room "host1" {["host1"; "p2"; "p3"]} 1000 ∅ ∅ ∅ ∅ in
  let s : store := {["R1" := r]} in
  ∃ s' r',
    leaveRoom "R1" (host r) s = (Returned left_room, s') ∧
    s' !! "R1" = Some r' ∧
    host r' ≠ host r ∧
    ∀ senderId payload,
      senderId ≠ host r' →
      sendOffer "R1" senderId (host r) payload s' = (Thrown InvalidDirection, s').
Proof.
  intros r s.
  assert (Hrest : players r ∖ {[host r]} ≠ ∅).
  { intros Hempty. assert (Hp2 : "p2" ∈ players r ∖ {[host r]}).
    { cbn. apply elem_of_difference. split.
      - apply elem_of_union_l, elem_of_union_r. by apply elem_of_singleton.
      - rewrite elem_of_singleton. discriminate. }
    rewrite Hempty in Hp2. by apply not_elem_of_empty in Hp2. }
  exact (offer_to_departed_host_rejected s "R1" r eq_refl Hrest).
Defined.



(** ** More of cleanupInactiveRooms *)

(** X18: sweeps compose.  A sweep at a later time after a sweep at an
    earlier time leaves the store that the later sweep alone leaves, and a
    second sweep at the same time removes nothing more. *)
Theorem cleanupInactiveRooms_later_sweep_absorbs (now1 now2 : Z) (s : store) :
  (now1 ≤ now2)%Z →
  ∃ s1 s2,
    cleanupInactiveRooms now1 s = (Returned tt, s1) ∧
    cleanupInactiveRooms now2 s1 = (Returned tt, s2) ∧
    cleanupInactiveRooms now2 s = (Returned tt, s2) ∧
    cleanupInactiveRooms now1 s1 = (Returned tt, s1).
Proof.
  intros Hle.
  destruct (cleanupInactiveRooms_lookup now1 s) as (s1 & Hrun1 & Hlook1).
  destruct (cleanupInactiveRooms_lookup now2 s1) as (s2 & Hrun2 & Hlook2).
  destruct (cleanupInactiveRooms_lookup now2 s) as (s2' & Hrun2' & Hlook2').
  destruct (cleanupInactiveRooms_lookup now1 s1) as (s1' & Hrun1' & Hlook1').
  exists s1, s2. split_and!; try done.
  - rewrite Hrun2'. f_equal. apply map_eq. intros roomId.
    rewrite Hlook2', Hlook2, Hlook1.
    destruct (s !! roomId) as [r|]; cbn; [|done].
    repeat (case_decide; cbn); try done; lia.
  - rewrite Hrun1'. f_equal. apply map_eq. intros roomId.
    rewrite Hlook1', Hlook1.
    destruct (s !! roomId) as [r|]; cbn; [|done].
    repeat (case_decide; cbn); try done; lia.
Qed.

Lemma cleanupInactiveRooms_later_sweep_absorbs_witness :
  let day := (24 * 3600 * 1000)%Z in
  let s : store := {["R1" := Room "h1" {["h1"]} 0 ∅ ∅ ∅ ∅;
                     "R2" := Room "h2" {["h2"]} day ∅ ∅ ∅ ∅;
                     "R3" := Room "h3" {["h3"]} (3 * day) ∅ ∅ ∅ ∅]} in
  ∃ s1 s2,
    cleanupInactiveRooms (day + 1) s = (Returned tt, s1) ∧
    cleanupInactiveRooms (2 * day + 1) s1 = (Returned tt, s2) ∧
    cleanupInactiveRooms (2 * day + 1) s = (Returned tt, s2) ∧
    cleanupInactiveRooms (day + 1) s1 = (Returned tt, s1).
Proof.
  intros day s.
  apply (cleanupInactiveRooms_later_sweep_absorbs (day + 1) (2 * day + 1) s).
  unfold day. lia.
Defined.

(** X19: the age at which a room goes.  A sweep at [now] removes a room
    exactly when `createdAt + ROOM_TIMEOUT < now`: a room that is exactly
    ROOM_TIMEOUT old is kept, unchanged, and goes one millisecond later. *)
Theorem cleanupInactiveRooms_threshold_is_strict
    (now : Z) (s : store) (roomId : string) (r : room) :
  s !! roomId = Some r →
  ((cleanupInactiveRooms now s).2 !! roomId = None ↔
     (createdAt r + ROOM_TIMEOUT < now)%Z) ∧
  ((cleanupInactiveRooms now s).2 !! roomId = Some r ↔
     (now ≤ createdAt r + ROOM_TIMEOUT)%Z).
Proof.
  intros Hr.
  destruct (cleanupInactiveRooms_lookup now s) as (s' & -> & Hlookup).
  cbn. rewrite Hlookup, Hr. cbn.
  case_decide; split; split; intros; try done; lia.
Qed.

Lemma cleanupInactiveRooms_threshold_is_strict_witness :
  let now := 1700000000000%Z in
  let r := Room "h1" {["h1"]} (now - ROOM_TIMEOUT) ∅ ∅ ∅ ∅ in
  let s : store := {["R1" := r]} in
  (cleanupInactiveRooms now s).2 !! "R1" = Some r ∧
  (cleanupInactiveRooms (now + 1) s).2 !! "R1" = None.
Proof.
  intros now r s. split.
  - apply (cleanupInactiveRooms_threshold_is_strict now s "R1" r eq_refl).
    unfold r, now, ROOM_TIMEOUT. cbn. lia.
  - apply (cleanupInactiveRooms_threshold_is_strict (now + 1) s "R1" r eq_refl).
    unfold r, now, ROOM_TIMEOUT. cbn. lia.
Defined.

(** ** Every store the program reaches *)



(** ** Two batches of candidates *)


